(** * Sinks: a shallow embedding of [service/sink.h]

    The header declares three families of objects:
    - [OutputSink], a base class with a public [state] field, two callbacks
      and an inline [write];
    - [AsyncFdOutputSink], its descriptor-backed subclass, of which the header
      holds the declarations and the one inline member [selectFd];
    - [InputSink], whose inline default methods throw.

    Callbacks are closures over the rest of the program.  They are embedded
    as state-passing functions over an abstract medium [M]; every invocation
    is also recorded in a trace, so that "how many times" and "in which
    order" are statements about a list. *)

From Stdlib Require Import List NArith ZArith Arith Lia.
From Stdlib Require Import Strings.Byte.
From Stdlib Require Strings.String.
Import ListNotations.
Import String.StringSyntax.
Delimit Scope string_scope with string.

Set Implicit Arguments.

(** The contents of a [std::string]. *)
Definition bytes : Type := list byte.

(** [enum State { OPEN, CLOSING, CLOSED }], with the enumerators' values. *)
Inductive State : Type := OPEN | CLOSING | CLOSED.

Definition State_value (st : State) : nat :=
  match st with OPEN => 0 | CLOSING => 1 | CLOSED => 2 end.

Definition State_eqb (a b : State) : bool :=
  Nat.eqb (State_value a) (State_value b).

(** The order the life of a sink follows: [OPEN], then [CLOSING], then
    [CLOSED]. *)
Definition State_le (a b : State) : Prop := State_value a <= State_value b.

(** What a call observably did to the world around the sink. *)
Inductive Event : Type :=
| EvOnWrite (offered : bytes) (accepted : N)
| EvOnClose
| EvOnHangup
| EvRegisterOutput (fd : Z)
| EvRegisterWake
| EvRearmOutput
| EvDeregisterOutput
| EvDeregisterWake
| EvCloseOutputFd.

Definition is_OnWrite (e : Event) : bool :=
  match e with EvOnWrite _ _ => true | _ => false end.

Definition is_OnClose (e : Event) : bool :=
  match e with EvOnClose => true | _ => false end.

Definition count_if (p : Event -> bool) (tr : list Event) : nat :=
  length (filter p tr).

(** The accepted part of every [onWrite] call of a trace, in call order. *)
Fixpoint accepted_chunks (tr : list Event) : list bytes :=
  match tr with
  | [] => []
  | EvOnWrite offered n :: tr' => firstn (N.to_nat n) offered :: accepted_chunks tr'
  | _ :: tr' => accepted_chunks tr'
  end.

(** The [onWrite] calls that offer [ds] and return [ns], pairwise. *)
Definition write_events (ds : list bytes) (ns : list N) : list Event :=
  map (fun dn => EvOnWrite (fst dn) (snd dn)) (combine ds ns).

(** The thread a member function is called on. *)
Inductive Caller : Type := IoThread | ProducerThread.

(** A call either returns or leaves by [throw ML::Exception(what)]. *)
Inductive Outcome (A : Type) : Type :=
| Returns (a : A)
| Throws (what : String.string).

Arguments Throws {A} what%_string.

Definition returns_normally {A : Type} (r : Outcome A) : bool :=
  match r with Returns _ => true | Throws _ => false end.

Section Model.

Variable M : Type.

(** [std::function<size_t (const char *, size_t)>]: the pointer and length
    are the bytes offered, the result is a [size_t]. *)
Definition OnWrite : Type := bytes -> M -> N * M.
(** [std::function<void ()>]. *)
Definition OnClose : Type := M -> M.
Definition OnHangup : Type := M -> M.

Record Outside : Type := mkOutside {
  medium : M;
  trace : list Event
}.

Definition emit (evs : list Event) (o : Outside) : Outside :=
  mkOutside (medium o) (trace o ++ evs).

Definition call_onWrite (f : OnWrite) (data : bytes) (o : Outside) : N * Outside :=
  let '(n, m') := f data (medium o) in
  (n, mkOutside m' (trace o ++ [EvOnWrite data n])).

(** [onClose] defaults to [nullptr] in the constructor: an empty function is
    [None] and is not called. *)
Definition call_onClose (f : option OnClose) (o : Outside) : Outside :=
  match f with
  | Some g => mkOutside (g (medium o)) (trace o ++ [EvOnClose])
  | None => o
  end.

Definition call_onHangup (f : OnHangup) (o : Outside) : Outside :=
  mkOutside (f (medium o)) (trace o ++ [EvOnHangup]).

(** ** OutputSink *)

Record OutputSink : Type := mkOutputSink {
  state : State;
  onWrite_ : OnWrite;
  onClose_ : option OnClose
}.

(** [OutputSink(const OnWrite & onWrite, const OnClose & onClose = nullptr)
      : state(OPEN), onWrite_(onWrite), onClose_(onClose) {}] *)
Definition OutputSink_new (onWrite : OnWrite) (onClose : option OnClose) : OutputSink :=
  mkOutputSink OPEN onWrite onClose.

(** The result of the rvalue overload: the returned [bool], the contents the
    caller's string is left with, the sink and the world. *)
Definition WriteResult (S : Type) : Type := (bool * bytes * S * Outside)%type.

Definition wr_ok {S : Type} (r : WriteResult S) : bool := fst (fst (fst r)).
Definition wr_arg {S : Type} (r : WriteResult S) : bytes := snd (fst (fst r)).
Definition wr_sink {S : Type} (r : WriteResult S) : S := snd (fst r).
Definition wr_out {S : Type} (r : WriteResult S) : Outside := snd r.

(** [virtual bool write(std::string && data)
      { return (onWrite_(data.c_str(), data.size()) > 0); }]
    The string is only read, and [state] is not consulted.  The calling
    thread [c] is there for the overrides; this body has no use for it. *)
Definition OutputSink_write (c : Caller) (data : bytes) (s : OutputSink) (o : Outside)
  : WriteResult OutputSink :=
  let '(n, o') := call_onWrite (onWrite_ s) data o in
  ((0 <? n)%N, data, s, o').

(** Modelled from the spec: [OutputSink::doClose] is declared in the header
    and defined in the absent [sink.cc].  The spec: the state moves to
    [Closed]; [onClose] is "invoked exactly once, when the sink reaches
    Closed", "regardless of how many requestClose() calls were made". *)
Definition OutputSink_doClose (s : OutputSink) (o : Outside) : OutputSink * Outside :=
  match state s with
  | CLOSED => (s, o)
  | _ => (mkOutputSink CLOSED (onWrite_ s) (onClose_ s), call_onClose (onClose_ s) o)
  end.

(** [virtual void requestClose() { doClose(); }] *)
Definition OutputSink_requestClose (s : OutputSink) (o : Outside) : OutputSink * Outside :=
  OutputSink_doClose s o.

(** The virtual members of [OutputSink], as a dictionary an override replaces. *)
Class OutputSinkVirtuals (S : Type) : Type := {
  v_state : S -> State;
  v_write : Caller -> bytes -> S -> Outside -> WriteResult S;
  v_requestClose : S -> Outside -> S * Outside
}.

(** [bool write(const std::string & data)
      { std::string localData(data); return write(std::move(localData)); }]
    The call dispatches to the override; what the override leaves in
    [localData] dies with the local, the caller's [data] is [const]. *)
Definition write_copy {S : Type} {V : OutputSinkVirtuals S}
  (c : Caller) (data : bytes) (s : S) (o : Outside) : WriteResult S :=
  let localData := data in
  let '(r, _, s', o') := v_write c localData s o in
  (r, data, s', o').

#[export] Instance OutputSink_virtuals : OutputSinkVirtuals OutputSink := {
  v_state := state;
  v_write := OutputSink_write;
  v_requestClose := OutputSink_requestClose
}.

(** ** InputSink

    [virtual void notifyReceived(std::string && data)
       { throw ML::Exception("unimplemented"); }]
    [virtual void notifyClosed(void)
       { throw ML::Exception("unimplemented"); }] *)
Definition InputSink_notifyReceived (data : bytes) (o : Outside) : Outcome (bytes * Outside) :=
  Throws "unimplemented".

Definition InputSink_notifyClosed (o : Outside) : Outcome Outside :=
  Throws "unimplemented".

(** ** AsyncFdOutputSink

    The header gives the members and the signatures; the bodies are in the
    absent [sink.cc], except [selectFd].  The members kept are those the
    spec's data model describes ([fdReady_] is not among them). *)

(** Modelled from the spec: [ML::RingBufferSRMW<std::string>], the type of
    the member [threadBuffer_], is declared outside the header, which gives
    only its size ([int bufferSize = 32] in the constructor).  It is the
    spec's cross-thread queue, "holding opaque byte payloads" in enqueue
    order, here with the bound the header gives it: at most [ring_size]
    strings, oldest first. *)
Record RingBufferSRMW : Type := mkRing {
  ring_size : Z;
  ring_items : list bytes
}.

(** The free slots of the ring. *)
Definition ring_room (r : RingBufferSRMW) : nat :=
  Z.to_nat (ring_size r - Z.of_nat (length (ring_items r))).

Definition ring_push (data : bytes) (r : RingBufferSRMW) : RingBufferSRMW :=
  mkRing (ring_size r) (ring_items r ++ [data]).

Definition ring_drained (r : RingBufferSRMW) : RingBufferSRMW :=
  mkRing (ring_size r) [].

Record AsyncFdOutputSink : Type := mkAsyncFdOutputSink {
  base : OutputSink;            (* the OutputSink subobject *)
  onHangup_ : OnHangup;
  epollFd_ : Z;
  outputFd_ : Z;
  wakeup_ : bool;               (* ML::Wakeup_Fd: raised and not yet cleared *)
  threadBuffer_ : RingBufferSRMW;
  buffer_ : bytes
}.

Definition set_state (st : State) (s : AsyncFdOutputSink) : AsyncFdOutputSink :=
  mkAsyncFdOutputSink
    (mkOutputSink st (onWrite_ (base s)) (onClose_ (base s)))
    (onHangup_ s) (epollFd_ s) (outputFd_ s) (wakeup_ s) (threadBuffer_ s) (buffer_ s).

Definition set_outputFd (fd : Z) (s : AsyncFdOutputSink) : AsyncFdOutputSink :=
  mkAsyncFdOutputSink (base s) (onHangup_ s) (epollFd_ s) fd (wakeup_ s)
    (threadBuffer_ s) (buffer_ s).

Definition set_wakeup (b : bool) (s : AsyncFdOutputSink) : AsyncFdOutputSink :=
  mkAsyncFdOutputSink (base s) (onHangup_ s) (epollFd_ s) (outputFd_ s) b
    (threadBuffer_ s) (buffer_ s).

Definition set_threadBuffer (q : RingBufferSRMW) (s : AsyncFdOutputSink) : AsyncFdOutputSink :=
  mkAsyncFdOutputSink (base s) (onHangup_ s) (epollFd_ s) (outputFd_ s) (wakeup_ s)
    q (buffer_ s).

Definition set_buffer (b : bytes) (s : AsyncFdOutputSink) : AsyncFdOutputSink :=
  mkAsyncFdOutputSink (base s) (onHangup_ s) (epollFd_ s) (outputFd_ s) (wakeup_ s)
    (threadBuffer_ s) b.

(** Modelled from the spec: the constructor body is in the absent [sink.cc].
    [OutputSink] has one constructor, so the base subobject is built by it;
    the spec has the sink start [Open] with nothing queued or buffered, and
    [initialize] binds the descriptor later.  [epfd] is the handle the
    multiplexer hands out; [bufferSize] sizes the ring [threadBuffer_];
    [-1] stands for "no descriptor bound". *)
Definition AsyncFdOutputSink_new (onWrite : OnWrite) (onHangup : OnHangup)
  (onClose : option OnClose) (bufferSize : Z) (epfd : Z) : AsyncFdOutputSink :=
  mkAsyncFdOutputSink (OutputSink_new onWrite onClose) onHangup epfd (-1) false
    (mkRing bufferSize []) [].

(** Modelled from the spec: [init] is in the absent [sink.cc].  "binds the
    descriptor, registers it (and the wake descriptor) with the reactor in
    one-shot, writable-interest mode". *)
Definition AsyncFdOutputSink_init (outputFd : Z) (s : AsyncFdOutputSink) (o : Outside)
  : AsyncFdOutputSink * Outside :=
  (set_outputFd outputFd s, emit [EvRegisterOutput outputFd; EvRegisterWake] o).

(** [virtual int selectFd() const { return epollFd_; }] *)
Definition selectFd (s : AsyncFdOutputSink) : Z := epollFd_ s.

(** Modelled from the spec: [AsyncFdOutputSink::doClose] is in the absent
    [sink.cc].  "Finalization of close: deregister both descriptors from the
    reactor, close outputFd, set state = Closed, invoke onClose exactly
    once"; the descriptor is "closed exactly once, on transition to Closed". *)
Definition AsyncFdOutputSink_doClose (s : AsyncFdOutputSink) (o : Outside)
  : AsyncFdOutputSink * Outside :=
  match state (base s) with
  | CLOSED => (s, o)
  | _ =>
      let o1 := emit [EvDeregisterOutput; EvDeregisterWake; EvCloseOutputFd] o in
      let s1 := set_state CLOSED s in
      (s1, call_onClose (onClose_ (base s)) o1)
  end.

(** Modelled from the spec: [flushStdInBuffer] is in the absent [sink.cc].
    "Flush: issue one non-blocking write of as much of localBuffer as the
    descriptor accepts; remove the accepted prefix; if localBuffer remains
    non-empty, re-arm one-shot writable interest; if it becomes empty and
    state == Closing, finalize the close." *)
Definition flushStdInBuffer (s : AsyncFdOutputSink) (o : Outside)
  : AsyncFdOutputSink * Outside :=
  let '(n, o1) := call_onWrite (onWrite_ (base s)) (buffer_ s) o in
  let s1 := set_buffer (skipn (N.to_nat n) (buffer_ s)) s in
  match buffer_ s1 with
  | _ :: _ => (s1, emit [EvRearmOutput] o1)
  | [] =>
      match state (base s1) with
      | CLOSING => AsyncFdOutputSink_doClose s1 o1
      | _ => (s1, o1)
      end
  end.

(** Modelled from the spec: [flushThreadBuffer] is in the absent [sink.cc].
    "drain pendingQueue completely into localBuffer (preserving enqueue
    order ...)". *)
Definition flushThreadBuffer (s : AsyncFdOutputSink) : AsyncFdOutputSink :=
  set_threadBuffer (ring_drained (threadBuffer_ s))
    (set_buffer (buffer_ s ++ concat (ring_items (threadBuffer_ s))) s).

(** What a moved-from [std::string] holds: the standard leaves it unspecified,
    the usual implementations leave it empty. *)
Definition moved_from (data : bytes) : bytes := [].

(** Modelled from the spec: [AsyncFdOutputSink::write] is in the absent
    [sink.cc].  "If state != Open, returns false immediately (no side
    effect).  If called on the I/O thread, appends directly to localBuffer
    and attempts an immediate non-blocking flush.  If called on any other
    thread, pushes bytes onto pendingQueue and raises wakeSignal; returns
    true optimistically (queuing succeeded)".  On the I/O thread the bytes
    are taken too, and [false] is kept for "not currently accepting".  A
    ring with no free slot cannot take the string, and "write() never
    blocks": the call then returns [false], the sink "not currently
    accepting", with nothing queued and the string left to the caller. *)
Definition AsyncFdOutputSink_write (c : Caller) (data : bytes)
  (s : AsyncFdOutputSink) (o : Outside) : WriteResult AsyncFdOutputSink :=
  match state (base s) with
  | OPEN =>
      match c with
      | IoThread =>
          let '(s1, o1) := flushStdInBuffer (set_buffer (buffer_ s ++ data) s) o in
          (true, data, s1, o1)
      | ProducerThread =>
          match ring_room (threadBuffer_ s) with
          | 0 => (false, data, s, o)
          | S _ =>
              (true, moved_from data,
               set_wakeup true (set_threadBuffer (ring_push data (threadBuffer_ s)) s),
               o)
          end
      end
  | _ => (false, data, s, o)
  end.

(** Modelled from the spec: [AsyncFdOutputSink::requestClose] is in the
    absent [sink.cc].  "sets state = Closing (no-op if already past Open); if
    localBuffer and pendingQueue are both empty, immediately finalizes the
    close; otherwise defers finalization until the buffer drains."  The
    contract does not tell the calling threads apart, and neither does this. *)
Definition AsyncFdOutputSink_requestClose (s : AsyncFdOutputSink) (o : Outside)
  : AsyncFdOutputSink * Outside :=
  match state (base s) with
  | OPEN =>
      let s1 := set_state CLOSING s in
      match buffer_ s1, ring_items (threadBuffer_ s1) with
      | [], [] => AsyncFdOutputSink_doClose s1 o
      | _, _ => (s1, o)
      end
  | _ => (s, o)
  end.

(** Modelled from the spec: the readiness event of the reactor, which
    "carries which descriptor fired and whether it signals
    writable/hangup/error". *)
Inductive Condition : Type := Writable | Hangup | Error.
Inductive Readiness : Type := WakeFired | OutputReady (cond : Condition).

Definition is_hangup (cond : Condition) : bool :=
  match cond with Writable => false | Hangup | Error => true end.

(** Modelled from the spec: [handleWakeupEvent] is in the absent [sink.cc].
    "If the wake descriptor fired: clear it, drain pendingQueue completely
    into localBuffer ..., then attempt a flush." *)
Definition handleWakeupEvent (s : AsyncFdOutputSink) (o : Outside)
  : AsyncFdOutputSink * Outside :=
  flushStdInBuffer (flushThreadBuffer (set_wakeup false s)) o.

(** Modelled from the spec: [handleFdEvent] is in the absent [sink.cc].
    "If the output descriptor is writable: attempt a flush."  "If the
    descriptor reports hangup/error: invoke onHangup, then proceed as if
    requestClose() had been called ... finalize immediately rather than
    waiting to drain".  The hangup is "an unconditional abort that
    short-circuits pending buffered data": what the buffer and the queue
    hold is dropped, not sent. *)
Definition handleFdEvent (cond : Condition) (s : AsyncFdOutputSink) (o : Outside)
  : AsyncFdOutputSink * Outside :=
  match cond with
  | Writable => flushStdInBuffer s o
  | Hangup | Error =>
      let o1 := call_onHangup (onHangup_ s) o in
      let s1 := set_threadBuffer (ring_drained (threadBuffer_ s)) (set_buffer [] s) in
      AsyncFdOutputSink_doClose s1 o1
  end.

(** Modelled from the spec: [processOne] is in the absent [sink.cc]; the
    readiness event the multiplexer would return is an argument.  The entry
    point is "invoked when the registered descriptor or wake descriptor is
    ready"; finalization deregisters both and closes the output descriptor,
    and the spec requires "no use of a descriptor after closing": on a
    [CLOSED] sink there is nothing left to process. *)
Definition processOne (ev : Readiness) (s : AsyncFdOutputSink) (o : Outside)
  : AsyncFdOutputSink * Outside :=
  match state (base s) with
  | CLOSED => (s, o)
  | _ =>
      match ev with
      | WakeFired => handleWakeupEvent s o
      | OutputReady cond => handleFdEvent cond s o
      end
  end.

(** Modelled from the spec: the reactor's side of a drain.  A flush, then
    one more for each writable event, which the reactor delivers for as long
    as the last flush re-armed the one-shot interest: at most [fuel]
    flushes. *)
Fixpoint flush_while_armed (fuel : nat) (s : AsyncFdOutputSink) (o : Outside)
  : AsyncFdOutputSink * Outside :=
  match fuel with
  | 0 => (s, o)
  | S fuel' =>
      let '(s1, o1) := flushStdInBuffer s o in
      match buffer_ s1 with
      | [] => (s1, o1)
      | _ :: _ => flush_while_armed fuel' s1 o1
      end
  end.

#[export] Instance AsyncFdOutputSink_virtuals : OutputSinkVirtuals AsyncFdOutputSink := {
  v_state := fun s => state (base s);
  v_write := AsyncFdOutputSink_write;
  v_requestClose := AsyncFdOutputSink_requestClose
}.

(** ** Calls a client or the reactor can make, and runs of them *)

Inductive BaseOp : Type :=
| BWrite (data : bytes)
| BWriteCopy (data : bytes)
| BRequestClose
| BDoClose.

Definition base_step (op : BaseOp) (w : OutputSink * Outside) : OutputSink * Outside :=
  match op with
  | BWrite data =>
      let '(_, _, s', o') := OutputSink_write IoThread data (fst w) (snd w) in (s', o')
  | BWriteCopy data =>
      let '(_, _, s', o') := write_copy IoThread data (fst w) (snd w) in (s', o')
  | BRequestClose => OutputSink_requestClose (fst w) (snd w)
  | BDoClose => OutputSink_doClose (fst w) (snd w)
  end.

Definition base_run (ops : list BaseOp) (w : OutputSink * Outside) : OutputSink * Outside :=
  fold_left (fun w op => base_step op w) ops w.

Inductive Op : Type :=
| OpInit (outputFd : Z)
| OpWrite (c : Caller) (data : bytes)
| OpWriteCopy (c : Caller) (data : bytes)
| OpRequestClose
| OpProcessOne (ev : Readiness)
| OpDoClose.

Definition step (op : Op) (w : AsyncFdOutputSink * Outside) : AsyncFdOutputSink * Outside :=
  match op with
  | OpInit fd => AsyncFdOutputSink_init fd (fst w) (snd w)
  | OpWrite c data =>
      let '(_, _, s', o') := AsyncFdOutputSink_write c data (fst w) (snd w) in (s', o')
  | OpWriteCopy c data =>
      let '(_, _, s', o') := write_copy c data (fst w) (snd w) in (s', o')
  | OpRequestClose => AsyncFdOutputSink_requestClose (fst w) (snd w)
  | OpProcessOne ev => processOne ev (fst w) (snd w)
  | OpDoClose => AsyncFdOutputSink_doClose (fst w) (snd w)
  end.

Definition run (ops : list Op) (w : AsyncFdOutputSink * Outside) : AsyncFdOutputSink * Outside :=
  fold_left (fun w op => step op w) ops w.

(** [requestClose] called [n] times in a row. *)
Definition OutputSink_requestClose_times (n : nat) (w : OutputSink * Outside)
  : OutputSink * Outside :=
  Nat.iter n (fun w => OutputSink_requestClose (fst w) (snd w)) w.

Definition AsyncFdOutputSink_requestClose_times (n : nat) (w : AsyncFdOutputSink * Outside)
  : AsyncFdOutputSink * Outside :=
  Nat.iter n (fun w => AsyncFdOutputSink_requestClose (fst w) (snd w)) w.

(** ** Counting [onClose] *)

(** What the trace must hold of [onClose]: one call once [CLOSED], if a
    callback was given at all. *)
Definition close_count (st : State) (oc : option OnClose) : nat :=
  match st, oc with
  | CLOSED, Some _ => 1
  | _, _ => 0
  end.

Definition closes_counted (f : option OnClose) (w : AsyncFdOutputSink * Outside)
  : Prop :=
  onClose_ (base (fst w)) = f
  /\ count_if is_OnClose (trace (snd w)) = close_count (state (base (fst w))) f.

Definition base_closes_counted (f : option OnClose) (w : OutputSink * Outside)
  : Prop :=
  onClose_ (fst w) = f
  /\ count_if is_OnClose (trace (snd w)) = close_count (state (fst w)) f.

(** ** A caller writing one string after another to a base sink

    Each call goes through one of the two overloads of [OutputSink::write]. *)

Inductive WriteCall : Type :=
| ByRvalue (data : bytes)     (* write(std::string &&) *)
| ByCopy (data : bytes).      (* write(const std::string &) *)

Definition call_data (w : WriteCall) : bytes :=
  match w with ByRvalue data | ByCopy data => data end.

Definition OutputSink_call (c : Caller) (w : WriteCall) (s : OutputSink) (o : Outside)
  : WriteResult OutputSink :=
  match w with
  | ByRvalue data => OutputSink_write c data s o
  | ByCopy data => write_copy c data s o
  end.

(** The calls in order; the returned [bool]s are collected. *)
Fixpoint OutputSink_calls (c : Caller) (ws : list WriteCall) (s : OutputSink) (o : Outside)
  : list bool * OutputSink * Outside :=
  match ws with
  | [] => ([], s, o)
  | w :: ws' =>
      let '(r, _, s1, o1) := OutputSink_call c w s o in
      let '(rs, s2, o2) := OutputSink_calls c ws' s1 o1 in
      (r :: rs, s2, o2)
  end.

(** The callback alone, fed the strings in order: what it returns each time,
    and the medium it leaves. *)
Fixpoint onWrite_counts (f : OnWrite) (ds : list bytes) (m : M) : list N :=
  match ds with
  | [] => []
  | d :: ds' => fst (f d m) :: onWrite_counts f ds' (snd (f d m))
  end.

Fixpoint onWrite_medium (f : OnWrite) (ds : list bytes) (m : M) : M :=
  match ds with
  | [] => m
  | d :: ds' => onWrite_medium f ds' (snd (f d m))
  end.


(** A callback that never reports more bytes than it was offered. *)
Definition honest (f : OnWrite) : Prop :=
  forall (data : bytes) (m : M), (fst (f data m) <= N.of_nat (length data))%N.

End Model.

Arguments Outside M : clear implicits.
Arguments OutputSink M : clear implicits.
Arguments OnWrite M : clear implicits.
Arguments OnClose M : clear implicits.
Arguments OnHangup M : clear implicits.
Arguments AsyncFdOutputSink M : clear implicits.

(** ** Concrete media and sinks *)

(** A descriptor that takes at most [k] bytes per call; the medium is what
    has reached the peer so far. *)
Definition fd_accepting (k : nat) : OnWrite bytes :=
  fun data m =>
    let n := Nat.min k (length data) in
    (N.of_nat n, m ++ firstn n data).

Definition ignore_hangup : OnHangup bytes := fun m => m.
Definition ignore_close : OnClose bytes := fun m => m.

Definition abcdef : bytes := String.list_byte_of_string "abcdef".
Definition ab : bytes := String.list_byte_of_string "ab".
Definition cd : bytes := String.list_byte_of_string "cd".
Definition ef : bytes := String.list_byte_of_string "ef".
Definition cdef : bytes := String.list_byte_of_string "cdef".

Definition nothing_yet : Outside bytes := mkOutside [] [].

(** A base sink on a two-byte descriptor, and the same sink after
    [requestClose]. *)
Definition base_sink : OutputSink bytes :=
  OutputSink_new (fd_accepting 2) (Some ignore_close).

Definition closed_base_world : OutputSink bytes * Outside bytes :=
  OutputSink_requestClose base_sink nothing_yet.

(** The same closed sink written out: [state] is a public field. *)
Definition closed_base_sink : OutputSink bytes :=
  mkOutputSink CLOSED (fd_accepting 2) (Some ignore_close).

(** A descriptor-backed sink on a two-byte descriptor, bound to descriptor 7. *)
Definition fd_sink : AsyncFdOutputSink bytes :=
  AsyncFdOutputSink_new (fd_accepting 2) ignore_hangup (Some ignore_close) 32 5.

Definition fd_world : AsyncFdOutputSink bytes * Outside bytes :=
  AsyncFdOutputSink_init 7 fd_sink nothing_yet.

(** The same sink with "abcdef" in its local buffer. *)
Definition fd_world_abcdef : AsyncFdOutputSink bytes * Outside bytes :=
  (set_buffer abcdef (fst fd_world), snd fd_world).

(** The same sink after [requestClose] with nothing pending: [CLOSED]. *)
Definition fd_world_closed : AsyncFdOutputSink bytes * Outside bytes :=
  AsyncFdOutputSink_requestClose (fst fd_world) (snd fd_world).

(** The same sink after an I/O-thread write of "abcdef": "cdef" is buffered. *)
Definition fd_world_stalled : AsyncFdOutputSink bytes * Outside bytes :=
  run [OpWrite IoThread abcdef] fd_world.



(** What the reactor could still report after a close. *)
Definition late_events : list Op :=
  [OpProcessOne (OutputReady Writable); OpProcessOne (OutputReady Writable);
   OpProcessOne WakeFired].

(** "abcdef" written from a producer thread, then the wake event and two
    writable events. *)
Definition abcdef_from_producer : list Op :=
  [OpWrite ProducerThread abcdef; OpProcessOne WakeFired;
   OpProcessOne (OutputReady Writable); OpProcessOne (OutputReady Writable)].

(** * Properties *)

(** Counting in a trace that ends in explicit events. *)
Ltac count_events :=
  unfold count_if in *; cbn in *;
  repeat rewrite filter_app; repeat rewrite length_app;
  cbn in *; try lia.

Section Properties.

Variable M : Type.

Lemma count_if_app (p : Event -> bool) (l1 l2 : list Event) :
  count_if p (l1 ++ l2) = count_if p l1 + count_if p l2.
Proof.
  unfold count_if. now rewrite filter_app, length_app.
Qed.

Lemma OutputSink_write_unfold (c : Caller) (data : bytes) (s : OutputSink M) (o : Outside M) :
  OutputSink_write c data s o =
    ((0 <? fst (onWrite_ s data (medium o)))%N, data, s,
     mkOutside (snd (onWrite_ s data (medium o)))
       (trace o ++ [EvOnWrite data (fst (onWrite_ s data (medium o)))])).
Proof.
  unfold OutputSink_write, call_onWrite.
  now destruct (onWrite_ s data (medium o)) as [n m'].
Qed.

(** C7. The base [OutputSink::write] hands the bytes to [onWrite] exactly
    once (one [EvOnWrite] carrying exactly these bytes is appended to the
    trace, the medium is what that one call left) and returns [true] exactly
    when [onWrite] returned more than zero.  The sink and the caller's string
    are left as they were. *)
Theorem OutputSink_write_delivers_once
  (c : Caller) (data : bytes) (s : OutputSink M) (o : Outside M) :
  OutputSink_write c data s o =
    ((0 <? fst (onWrite_ s data (medium o)))%N, data, s,
     mkOutside (snd (onWrite_ s data (medium o)))
       (trace o ++ [EvOnWrite data (fst (onWrite_ s data (medium o)))]))
  /\ (wr_ok (OutputSink_write c data s o) = true
      <-> (0 < fst (onWrite_ s data (medium o)))%N)
  /\ count_if is_OnWrite (trace (wr_out (OutputSink_write c data s o)))
     = S (count_if is_OnWrite (trace o)).
Proof.
  rewrite OutputSink_write_unfold. unfold wr_ok, wr_out. cbn [fst snd trace].
  split; [reflexivity | split].
  - apply N.ltb_lt.
  - rewrite count_if_app. cbn. lia.
Qed.

(** C8. The default [InputSink::notifyReceived] and [InputSink::notifyClosed]
    leave by throwing [ML::Exception("unimplemented")] for every input: they
    never return normally, so the data is never silently dropped. *)
Theorem InputSink_defaults_throw (data : bytes) (o : Outside M) :
  InputSink_notifyReceived data o = Throws "unimplemented"
  /\ returns_normally (InputSink_notifyReceived data o) = false
  /\ InputSink_notifyClosed o = Throws "unimplemented"
  /\ returns_normally (InputSink_notifyClosed o) = false.
Proof.
  repeat split.
Qed.

(** C9. For every sink type and override of the virtual [write], the copy
    overload returns what the rvalue overload returns on an equal string,
    leaves the sink and the world (medium and trace, hence the [onWrite]
    calls) as the rvalue overload does, and leaves its argument as it was,
    whatever the override does to the string it is given.  On a base sink
    the two overloads are the same function. *)
Theorem write_copy_agrees_with_rvalue_write
  (S : Type) (V : OutputSinkVirtuals M S)
  (c : Caller) (data : bytes) (s : S) (o : Outside M) :
  wr_ok (write_copy c data s o) = wr_ok (v_write c data s o)
  /\ wr_sink (write_copy c data s o) = wr_sink (v_write c data s o)
  /\ wr_out (write_copy c data s o) = wr_out (v_write c data s o)
  /\ wr_arg (write_copy c data s o) = data
  /\ (forall (b : OutputSink M),
        write_copy c data b o = OutputSink_write c data b o).
Proof.
  unfold write_copy. split; [ | split; [ | split; [ | split ] ] ];
    try (destruct (v_write c data s o) as [[[r a] s'] o']; reflexivity).
  intro b. cbn [v_write OutputSink_virtuals].
  rewrite OutputSink_write_unfold. reflexivity.
Qed.

(** C10. Both constructors produce a sink in state [OPEN], whatever the
    callbacks and the other arguments. *)
Theorem constructors_start_OPEN
  (onWrite : OnWrite M) (onHangup : OnHangup M) (onClose : option (OnClose M))
  (bufferSize epfd : Z) :
  state (OutputSink_new onWrite onClose) = OPEN
  /\ state (base (AsyncFdOutputSink_new onWrite onHangup onClose bufferSize epfd)) = OPEN
  /\ v_state (OutputSink_new onWrite onClose) = OPEN
  /\ v_state (AsyncFdOutputSink_new onWrite onHangup onClose bufferSize epfd) = OPEN.
Proof.
  repeat split.
Qed.

(** *** How the state moves *)

Lemma State_le_refl (a : State) : State_le a a.
Proof. unfold State_le. lia. Qed.

Lemma State_le_trans (a b c : State) : State_le a b -> State_le b c -> State_le a c.
Proof. unfold State_le. lia. Qed.

Lemma State_le_CLOSED (a : State) : State_le a CLOSED.
Proof. destruct a; unfold State_le; cbn; lia. Qed.

Lemma State_le_OPEN (a : State) : State_le OPEN a.
Proof. destruct a; unfold State_le; cbn; lia. Qed.

Lemma doClose_state (s : AsyncFdOutputSink M) (o : Outside M) :
  state (base (fst (AsyncFdOutputSink_doClose s o))) = CLOSED.
Proof.
  unfold AsyncFdOutputSink_doClose. destruct (state (base s)) eqn:E; cbn; auto.
Qed.

Lemma flushStdInBuffer_state (s : AsyncFdOutputSink M) (o : Outside M) :
  State_le (state (base s)) (state (base (fst (flushStdInBuffer s o)))).
Proof.
  unfold flushStdInBuffer, call_onWrite.
  destruct (onWrite_ (base s) (buffer_ s) (medium o)) as [n m'].
  cbn [buffer_ set_buffer].
  destruct (skipn (N.to_nat n) (buffer_ s)); cbn; [ | apply State_le_refl ].
  destruct (state (base s)) eqn:E; cbn; rewrite ?E; try apply State_le_refl.
  rewrite doClose_state. apply State_le_CLOSED.
Qed.

Lemma base_step_state (op : BaseOp) (w : OutputSink M * Outside M) :
  State_le (state (fst w)) (state (fst (base_step op w))).
Proof.
  destruct w as [s o]. destruct op; cbn [base_step fst snd].
  - rewrite OutputSink_write_unfold. apply State_le_refl.
  - unfold write_copy. cbn [v_write OutputSink_virtuals].
    rewrite OutputSink_write_unfold. apply State_le_refl.
  - unfold OutputSink_requestClose, OutputSink_doClose.
    destruct (state s) eqn:E; cbn; rewrite ?E;
      auto using State_le_refl, State_le_CLOSED.
  - unfold OutputSink_doClose.
    destruct (state s) eqn:E; cbn; rewrite ?E;
      auto using State_le_refl, State_le_CLOSED.
Qed.

Lemma AsyncFdOutputSink_write_state
  (c : Caller) (data : bytes) (s : AsyncFdOutputSink M) (o : Outside M) :
  State_le (state (base s)) (state (base (wr_sink (AsyncFdOutputSink_write c data s o)))).
Proof.
  unfold AsyncFdOutputSink_write, wr_sink.
  destruct (state (base s)) eqn:E; cbn; rewrite ?E; try apply State_le_refl.
  destruct c.
  - destruct (flushStdInBuffer _ o) as [s1 o1]. cbn. apply State_le_OPEN.
  - destruct (ring_room (threadBuffer_ s)); cbn; apply State_le_OPEN.
Qed.

Lemma step_state (op : Op) (w : AsyncFdOutputSink M * Outside M) :
  State_le (state (base (fst w))) (state (base (fst (step op w)))).
Proof.
  destruct w as [s o]. destruct op; cbn [step fst snd].
  - apply State_le_refl.
  - pose proof (AsyncFdOutputSink_write_state c data s o) as H.
    unfold wr_sink in H.
    now destruct (AsyncFdOutputSink_write c data s o) as [[[r a] s'] o'].
  - pose proof (AsyncFdOutputSink_write_state c data s o) as H.
    unfold wr_sink in H. unfold write_copy. cbn [v_write AsyncFdOutputSink_virtuals].
    now destruct (AsyncFdOutputSink_write c data s o) as [[[r a] s'] o'].
  - unfold AsyncFdOutputSink_requestClose.
    destruct (state (base s)) eqn:E; cbn [fst]; rewrite ?E; try apply State_le_refl.
    cbn [buffer_ threadBuffer_ set_state].
    destruct (buffer_ s), (ring_items (threadBuffer_ s));
      try (rewrite doClose_state; apply State_le_CLOSED);
      cbn; apply State_le_OPEN.
  - unfold processOne.
    destruct (state (base s)) eqn:E; cbn [fst]; try (rewrite E; apply State_le_refl);
      rewrite <- E.
    all: destruct ev as [ | cond ].
    all: try (unfold handleWakeupEvent;
              eapply State_le_trans; [ | apply flushStdInBuffer_state ];
              cbn; apply State_le_refl).
    all: destruct cond; cbn [handleFdEvent];
        try apply flushStdInBuffer_state;
        rewrite doClose_state; apply State_le_CLOSED.
  - rewrite doClose_state. apply State_le_CLOSED.
Qed.

Lemma run_state (ops : list Op) (w : AsyncFdOutputSink M * Outside M) :
  State_le (state (base (fst w))) (state (base (fst (run ops w)))).
Proof.
  revert w. induction ops as [ | op ops IH ]; intro w; cbn.
  - apply State_le_refl.
  - eapply State_le_trans; [ apply (step_state op w) | apply IH ].
Qed.

Lemma base_run_state (ops : list BaseOp) (w : OutputSink M * Outside M) :
  State_le (state (fst w)) (state (fst (base_run ops w))).
Proof.
  revert w. induction ops as [ | op ops IH ]; intro w; cbn.
  - apply State_le_refl.
  - eapply State_le_trans; [ apply (base_step_state op w) | apply IH ].
Qed.

(** C6. The state is one of the three enumerators, and no run of calls
    (construction aside: [init], both [write] overloads, [requestClose], the
    reactor entry point [processOne] on any readiness event, and the
    finalization [doClose]) ever lowers it in the order
    [OPEN < CLOSING < CLOSED]; the same holds for the base sink's calls.  In
    particular a [CLOSED] sink stays [CLOSED] and a sink past [OPEN] never
    returns to [OPEN]. *)
Theorem state_only_moves_forward :
  (forall st : State, st = OPEN \/ st = CLOSING \/ st = CLOSED)
  /\ (forall (ops : list Op) (w : AsyncFdOutputSink M * Outside M),
        State_value (state (base (fst w)))
        <= State_value (state (base (fst (run ops w)))))
  /\ (forall (ops : list BaseOp) (w : OutputSink M * Outside M),
        State_value (state (fst w)) <= State_value (state (fst (base_run ops w)))).
Proof.
  split; [ intros []; auto | split ].
  - intros ops w. apply run_state.
  - intros ops w. apply base_run_state.
Qed.

(** *** Closing *)

Lemma OutputSink_requestClose_twice (s : OutputSink M) (o : Outside M) :
  OutputSink_requestClose (fst (OutputSink_requestClose s o))
                          (snd (OutputSink_requestClose s o))
  = OutputSink_requestClose s o.
Proof.
  unfold OutputSink_requestClose, OutputSink_doClose.
  destruct (state s) eqn:E; cbn; rewrite ?E; reflexivity.
Qed.

Lemma AsyncFdOutputSink_requestClose_twice (s : AsyncFdOutputSink M) (o : Outside M) :
  AsyncFdOutputSink_requestClose (fst (AsyncFdOutputSink_requestClose s o))
                                 (snd (AsyncFdOutputSink_requestClose s o))
  = AsyncFdOutputSink_requestClose s o.
Proof.
  unfold AsyncFdOutputSink_requestClose, AsyncFdOutputSink_doClose.
  destruct (state (base s)) eqn:E; cbn; rewrite ?E; try reflexivity.
  destruct (buffer_ s), (ring_items (threadBuffer_ s)); cbn; reflexivity.
Qed.

Lemma doClose_counted (f : option (OnClose M)) (s : AsyncFdOutputSink M) (o : Outside M) :
  closes_counted f (s, o) -> closes_counted f (AsyncFdOutputSink_doClose s o).
Proof.
  unfold closes_counted, AsyncFdOutputSink_doClose. cbn [fst snd].
  intros [Hf Hn].
  destruct (state (base s)) eqn:E; cbn; rewrite ?E; try (split; assumption);
    rewrite Hf; split; try reflexivity;
    destruct f; count_events.
Qed.

Lemma flushStdInBuffer_counted
  (f : option (OnClose M)) (s : AsyncFdOutputSink M) (o : Outside M) :
  closes_counted f (s, o) -> closes_counted f (flushStdInBuffer s o).
Proof.
  intros [Hf Hn]. cbn [fst snd] in Hf, Hn.
  unfold flushStdInBuffer, call_onWrite.
  destruct (onWrite_ (base s) (buffer_ s) (medium o)) as [n m'].
  cbn [buffer_ set_buffer].
  assert (Hmid : forall b,
    closes_counted f (set_buffer b s,
                      mkOutside m' (trace o ++ [EvOnWrite (buffer_ s) n]))).
  { intro b. split; cbn [fst snd base set_buffer trace]; [ assumption | ].
    rewrite count_if_app, Hn. cbn. lia. }
  destruct (skipn (N.to_nat n) (buffer_ s)) as [ | x rest ] eqn:Er.
  - cbn [base set_buffer state].
    destruct (state (base s)) eqn:E; try apply Hmid.
    apply doClose_counted. apply Hmid.
  - destruct (Hmid (x :: rest)) as [Hf' Hn'].
    split; cbn [fst snd base set_buffer trace emit] in *; [ assumption | ].
    rewrite count_if_app, Hn'. cbn. lia.
Qed.

Lemma AsyncFdOutputSink_write_not_OPEN
  (c : Caller) (data : bytes) (s : AsyncFdOutputSink M) (o : Outside M) :
  state (base s) <> OPEN ->
  AsyncFdOutputSink_write c data s o = (false, data, s, o).
Proof.
  intro H. unfold AsyncFdOutputSink_write.
  destruct (state (base s)); [ congruence | reflexivity | reflexivity ].
Qed.

Lemma AsyncFdOutputSink_write_counted
  (f : option (OnClose M)) (c : Caller) (data : bytes)
  (s : AsyncFdOutputSink M) (o : Outside M) :
  closes_counted f (s, o) ->
  closes_counted f (wr_sink (AsyncFdOutputSink_write c data s o),
                    wr_out (AsyncFdOutputSink_write c data s o)).
Proof.
  intro H. unfold AsyncFdOutputSink_write, wr_sink, wr_out.
  destruct (state (base s)) eqn:E; cbn [fst snd]; try assumption.
  destruct c.
  - pose proof (@flushStdInBuffer_counted f (set_buffer (buffer_ s ++ data) s) o) as F.
    destruct (flushStdInBuffer (set_buffer (buffer_ s ++ data) s) o) as [s1 o1].
    cbn [fst snd]. apply F. exact H.
  - destruct (ring_room (threadBuffer_ s)); cbn [fst snd]; exact H.
Qed.

Lemma step_counted (f : option (OnClose M)) (op : Op) (w : AsyncFdOutputSink M * Outside M) :
  closes_counted f w -> closes_counted f (step op w).
Proof.
  destruct w as [s o]. intro H. destruct op; cbn [step fst snd].
  - destruct H as [Hf Hn].
    split; cbn [fst snd base set_outputFd trace emit AsyncFdOutputSink_init] in *;
      [ assumption | ].
    rewrite count_if_app, Hn. cbn. lia.
  - pose proof (AsyncFdOutputSink_write_counted c data H) as F.
    unfold wr_sink, wr_out in F.
    now destruct (AsyncFdOutputSink_write c data s o) as [[[r a] s'] o'].
  - pose proof (AsyncFdOutputSink_write_counted c data H) as F.
    unfold wr_sink, wr_out in F. unfold write_copy.
    cbn [v_write AsyncFdOutputSink_virtuals].
    now destruct (AsyncFdOutputSink_write c data s o) as [[[r a] s'] o'].
  - unfold AsyncFdOutputSink_requestClose.
    destruct (state (base s)) eqn:E; try assumption.
    assert (Hmid : closes_counted f (set_state CLOSING s, o)).
    { destruct H as [Hf Hn]. cbn in *. rewrite E in Hn. split; assumption. }
    cbn [buffer_ threadBuffer_ set_state].
    destruct (buffer_ s), (ring_items (threadBuffer_ s)); try exact Hmid.
    apply doClose_counted. exact Hmid.
  - unfold processOne. destruct (state (base s)) eqn:E; try exact H.
    all: destruct ev as [ | cond ].
    all: try (unfold handleWakeupEvent; apply flushStdInBuffer_counted;
              destruct H as [Hf Hn]; split; cbn in *; assumption).
    all: destruct cond; cbn [handleFdEvent];
        try (apply flushStdInBuffer_counted; exact H);
        apply doClose_counted; destruct H as [Hf Hn];
        split; cbn [fst snd trace call_onHangup base set_buffer set_threadBuffer] in *;
        try assumption; rewrite count_if_app, Hn; cbn; lia.
  - apply doClose_counted. exact H.
Qed.

Lemma run_counted (f : option (OnClose M)) (ops : list Op) (w : AsyncFdOutputSink M * Outside M) :
  closes_counted f w -> closes_counted f (run ops w).
Proof.
  revert w. induction ops as [ | op ops IH ]; intros w H; cbn.
  - exact H.
  - apply IH. apply step_counted. exact H.
Qed.

Lemma base_step_counted (f : option (OnClose M)) (op : BaseOp) (w : OutputSink M * Outside M) :
  base_closes_counted f w -> base_closes_counted f (base_step op w).
Proof.
  destruct w as [s o]. intros [Hf Hn]. cbn [fst snd] in Hf, Hn.
  assert (Hclose : base_closes_counted f (OutputSink_doClose s o)).
  { unfold base_closes_counted, OutputSink_doClose.
    destruct (state s) eqn:E; cbn; rewrite ?E; try (split; assumption);
      rewrite Hf; split; try reflexivity;
      destruct f; count_events. }
  destruct op; cbn [base_step fst snd]; try exact Hclose.
  - rewrite OutputSink_write_unfold. split; cbn [fst snd trace]; [ assumption | ].
    rewrite count_if_app, Hn. cbn. lia.
  - unfold write_copy. cbn [v_write OutputSink_virtuals].
    rewrite OutputSink_write_unfold. split; cbn [fst snd trace]; [ assumption | ].
    rewrite count_if_app, Hn. cbn. lia.
Qed.

Lemma base_run_counted (f : option (OnClose M)) (ops : list BaseOp) (w : OutputSink M * Outside M) :
  base_closes_counted f w -> base_closes_counted f (base_run ops w).
Proof.
  revert w. induction ops as [ | op ops IH ]; intros w H; cbn.
  - exact H.
  - apply IH. apply base_step_counted. exact H.
Qed.

Lemma close_count_Some (st : State) (g : OnClose M) :
  close_count st (Some g) = if State_eqb st CLOSED then 1 else 0.
Proof. now destruct st. Qed.

(** C2. [requestClose] is idempotent on the base sink and on the
    descriptor-backed sink: called any number of times in a row, it leaves
    the sink and the world exactly as one call does.  And in every run of
    calls from a freshly constructed sink with an [onClose] callback, however
    many [requestClose] the run holds, [onClose] has been called exactly
    once if the sink is [CLOSED] (and not at all before that). *)
Theorem requestClose_idempotent_and_onClose_once :
  (forall (n : nat) (s : OutputSink M) (o : Outside M),
      OutputSink_requestClose_times (S n) (s, o) = OutputSink_requestClose s o)
  /\ (forall (n : nat) (s : AsyncFdOutputSink M) (o : Outside M),
      AsyncFdOutputSink_requestClose_times (S n) (s, o)
      = AsyncFdOutputSink_requestClose s o)
  /\ (forall (onWrite : OnWrite M) (onClose : OnClose M) (m : M) (ops : list BaseOp),
      count_if is_OnClose
        (trace (snd (base_run ops (OutputSink_new onWrite (Some onClose), mkOutside m []))))
      = if State_eqb
             (state (fst (base_run ops (OutputSink_new onWrite (Some onClose),
                                        mkOutside m []))))
             CLOSED
        then 1 else 0)
  /\ (forall (onWrite : OnWrite M) (onHangup : OnHangup M) (onClose : OnClose M)
             (bufferSize epfd : Z) (m : M) (ops : list Op),
      count_if is_OnClose
        (trace (snd (run ops (AsyncFdOutputSink_new onWrite onHangup (Some onClose)
                                bufferSize epfd, mkOutside m []))))
      = if State_eqb
             (state (base (fst (run ops
                (AsyncFdOutputSink_new onWrite onHangup (Some onClose) bufferSize epfd,
                 mkOutside m [])))))
             CLOSED
        then 1 else 0).
Proof.
  repeat split.
  - intros n s o. unfold OutputSink_requestClose_times.
    induction n as [ | n IH ]; [ reflexivity | ].
    rewrite Nat.iter_succ, IH. apply OutputSink_requestClose_twice.
  - intros n s o. unfold AsyncFdOutputSink_requestClose_times.
    induction n as [ | n IH ]; [ reflexivity | ].
    rewrite Nat.iter_succ, IH. apply AsyncFdOutputSink_requestClose_twice.
  - intros onWrite onClose m ops.
    rewrite <- close_count_Some with (g := onClose).
    apply (@base_run_counted (Some onClose) ops). split; reflexivity.
  - intros onWrite onHangup onClose bufferSize epfd m ops.
    rewrite <- close_count_Some with (g := onClose).
    apply (@run_counted (Some onClose) ops). split; reflexivity.
Qed.

(** *** Writing *)

Lemma run_CLOSED_stays (ops : list Op) (w : AsyncFdOutputSink M * Outside M) :
  state (base (fst w)) = CLOSED -> state (base (fst (run ops w))) = CLOSED.
Proof.
  intro H. pose proof (run_state ops w) as L. unfold State_le in L.
  rewrite H in L. destruct (state (base (fst (run ops w)))); cbn in L; lia || reflexivity.
Qed.

(** C1, as amended.  On a descriptor-backed sink that is past [OPEN],
    [write] returns [false] and changes nothing: the sink (so the queue,
    the buffer and the wake signal), the medium and the trace (so no
    [onWrite] call) are as before.  The base [OutputSink::write] does not
    look at [state]: in every state, [CLOSING] and [CLOSED] included, it
    calls [onWrite] once with the bytes and returns whether the result is
    positive. *)
Theorem write_on_sink_past_OPEN
  (c : Caller) (data : bytes)
  (sa : AsyncFdOutputSink M) (sb : OutputSink M) (o : Outside M) :
  state (base sa) <> OPEN ->
  AsyncFdOutputSink_write c data sa o = (false, data, sa, o)
  /\ OutputSink_write c data sb o =
       ((0 <? fst (onWrite_ sb data (medium o)))%N, data, sb,
        mkOutside (snd (onWrite_ sb data (medium o)))
          (trace o ++ [EvOnWrite data (fst (onWrite_ sb data (medium o)))])).
Proof.
  intro Ha. split.
  - now apply AsyncFdOutputSink_write_not_OPEN.
  - apply OutputSink_write_unfold.
Qed.

(** *** Hangup *)

Lemma handle_hangup_unfold (cond : Condition) (s : AsyncFdOutputSink M) (o : Outside M) :
  is_hangup cond = true ->
  state (base s) <> CLOSED ->
  processOne (OutputReady cond) s o
  = AsyncFdOutputSink_doClose
      (set_threadBuffer (ring_drained (threadBuffer_ s)) (set_buffer [] s))
      (call_onHangup (onHangup_ s) o).
Proof.
  intros Hc Hs. unfold processOne.
  destruct (state (base s)); try congruence;
    destruct cond; cbn; discriminate || reflexivity.
Qed.

(** Nothing moves a [CLOSED] sink any more: no call changes its buffer, its
    queue or the medium, or makes an [onWrite] call. *)
Lemma closed_step_inert (op : Op) (s : AsyncFdOutputSink M) (o : Outside M) :
  state (base s) = CLOSED ->
  state (base (fst (step op (s, o)))) = CLOSED
  /\ buffer_ (fst (step op (s, o))) = buffer_ s
  /\ threadBuffer_ (fst (step op (s, o))) = threadBuffer_ s
  /\ medium (snd (step op (s, o))) = medium o
  /\ count_if is_OnWrite (trace (snd (step op (s, o)))) = count_if is_OnWrite (trace o).
Proof.
  intro H.
  assert (Hw : forall c data, AsyncFdOutputSink_write c data s o = (false, data, s, o))
    by (intros; apply AsyncFdOutputSink_write_not_OPEN; rewrite H; discriminate).
  destruct op; cbn [step fst snd].
  - unfold AsyncFdOutputSink_init, emit.
    cbn [fst snd base set_outputFd buffer_ threadBuffer_ medium trace].
    repeat split; try assumption. rewrite count_if_app. cbn. lia.
  - rewrite Hw. cbn. repeat split; assumption.
  - unfold write_copy. cbn [v_write AsyncFdOutputSink_virtuals]. rewrite Hw.
    cbn. repeat split; assumption.
  - unfold AsyncFdOutputSink_requestClose. rewrite H. cbn. repeat split; assumption.
  - unfold processOne. rewrite H. cbn. repeat split; assumption.
  - unfold AsyncFdOutputSink_doClose. rewrite H. cbn. repeat split; assumption.
Qed.

Lemma closed_run_inert (ops : list Op) :
  forall (s : AsyncFdOutputSink M) (o : Outside M),
    state (base s) = CLOSED ->
    state (base (fst (run ops (s, o)))) = CLOSED
    /\ buffer_ (fst (run ops (s, o))) = buffer_ s
    /\ threadBuffer_ (fst (run ops (s, o))) = threadBuffer_ s
    /\ medium (snd (run ops (s, o))) = medium o
    /\ count_if is_OnWrite (trace (snd (run ops (s, o)))) = count_if is_OnWrite (trace o).
Proof.
  induction ops as [ | op ops IH ]; intros s o H.
  - cbn. repeat split; assumption.
  - cbn [run fold_left].
    destruct (closed_step_inert op s o H) as [H1 [H2 [H3 [H4 H5]]]].
    destruct (step op (s, o)) as [s1 o1] eqn:E. cbn [fst snd] in *.
    destruct (IH s1 o1 H1) as [I1 [I2 [I3 [I4 I5]]]].
    unfold run in *. repeat split; congruence.
Qed.

(** C4. When the reactor entry point is given a hangup or error event for a
    sink that is not yet [CLOSED] (its descriptor is still registered):
    [onHangup] is called; the buffered and the queued bytes are dropped; the
    close is finalized within the same call (both descriptors deregistered,
    the output descriptor closed, the state [CLOSED], [onClose] called if
    there is one), with no [onWrite] call; [onHangup] comes before [onClose]
    in the trace.  Whatever is called afterwards, reactor events included,
    the sink stays [CLOSED] with an empty buffer and an empty queue, no
    [onWrite] call is ever made again and the medium is left as the hangup
    left it: the data is never drained; and every [write] returns [false]
    and changes nothing. *)
Theorem hangup_finalizes_at_once
  (cond : Condition) (s : AsyncFdOutputSink M) (o : Outside M) :
  is_hangup cond = true ->
  state (base s) <> CLOSED ->
  fst (processOne (OutputReady cond) s o)
  = set_state CLOSED
      (set_threadBuffer (ring_drained (threadBuffer_ s)) (set_buffer [] s))
  /\ state (base (fst (processOne (OutputReady cond) s o))) = CLOSED
  /\ buffer_ (fst (processOne (OutputReady cond) s o)) = []
  /\ ring_items (threadBuffer_ (fst (processOne (OutputReady cond) s o))) = []
  /\ trace (snd (processOne (OutputReady cond) s o))
     = trace o ++ EvOnHangup :: EvDeregisterOutput :: EvDeregisterWake
                 :: EvCloseOutputFd
                 :: match onClose_ (base s) with
                    | Some _ => [EvOnClose]
                    | None => []
                    end
  /\ medium (snd (processOne (OutputReady cond) s o))
     = match onClose_ (base s) with
       | Some g => g (onHangup_ s (medium o))
       | None => onHangup_ s (medium o)
       end
  /\ count_if is_OnWrite (trace (snd (processOne (OutputReady cond) s o)))
     = count_if is_OnWrite (trace o)
  /\ (forall ops : list Op,
        state (base (fst (run ops (processOne (OutputReady cond) s o)))) = CLOSED
        /\ buffer_ (fst (run ops (processOne (OutputReady cond) s o))) = []
        /\ ring_items (threadBuffer_ (fst (run ops (processOne (OutputReady cond) s o))))
           = []
        /\ count_if is_OnWrite
             (trace (snd (run ops (processOne (OutputReady cond) s o))))
           = count_if is_OnWrite (trace o)
        /\ medium (snd (run ops (processOne (OutputReady cond) s o)))
           = medium (snd (processOne (OutputReady cond) s o)))
  /\ (forall (ops : list Op) (c : Caller) (data : bytes),
        AsyncFdOutputSink_write c data
          (fst (run ops (processOne (OutputReady cond) s o)))
          (snd (run ops (processOne (OutputReady cond) s o)))
        = (false, data,
           fst (run ops (processOne (OutputReady cond) s o)),
           snd (run ops (processOne (OutputReady cond) s o)))).
Proof.
  intros Hc Hs.
  pose proof (@handle_hangup_unfold cond s o Hc Hs) as U.
  set (r := processOne (OutputReady cond) s o) in *.
  assert (Hst : state (base (fst r)) = CLOSED)
    by (rewrite U; apply doClose_state).
  assert (R : r = (set_state CLOSED
                     (set_threadBuffer (ring_drained (threadBuffer_ s))
                        (set_buffer [] s)),
                   call_onClose (onClose_ (base s))
                     (emit [EvDeregisterOutput; EvDeregisterWake; EvCloseOutputFd]
                        (call_onHangup (onHangup_ s) o)))).
  { rewrite U. unfold AsyncFdOutputSink_doClose. cbn [base set_threadBuffer set_buffer].
    destruct (state (base s)); [ reflexivity | reflexivity | congruence ]. }
  assert (Hcount : count_if is_OnWrite (trace (snd r)) = count_if is_OnWrite (trace o)).
  { rewrite R. unfold call_onClose, emit, call_onHangup.
    destruct (onClose_ (base s)); count_events. }
  split; [ rewrite R; reflexivity | ].
  split; [ exact Hst | ].
  split; [ rewrite R; reflexivity | ].
  split; [ rewrite R; reflexivity | ].
  split.
  { rewrite R. unfold call_onClose, emit, call_onHangup.
    destruct (onClose_ (base s)); cbn; rewrite <- ?app_assoc; reflexivity. }
  split.
  { rewrite R. unfold call_onClose, emit, call_onHangup.
    destruct (onClose_ (base s)); reflexivity. }
  split; [ exact Hcount | ].
  split.
  - intro ops.
    destruct r as [s1 o1] eqn:Er. cbn [fst snd] in *.
    destruct (closed_run_inert ops s1 o1 Hst) as [I1 [I2 [I3 [I4 I5]]]].
    injection R as Rs Ro.
    repeat split.
    + exact I1.
    + rewrite I2, Rs. reflexivity.
    + rewrite I3, Rs. reflexivity.
    + rewrite I5. exact Hcount.
    + exact I4.
  - intros ops c data. apply AsyncFdOutputSink_write_not_OPEN.
    rewrite run_CLOSED_stays; [ discriminate | exact Hst ].
Qed.

End Properties.

(** *** Flushing *)

Lemma accepted_chunks_app (l1 l2 : list Event) :
  accepted_chunks (l1 ++ l2) = accepted_chunks l1 ++ accepted_chunks l2.
Proof.
  induction l1 as [ | e l1 IH ]; [ reflexivity | ].
  destruct e; cbn; rewrite IH; reflexivity.
Qed.

Lemma accepted_chunks_none (l : list Event) :
  filter is_OnWrite l = [] -> accepted_chunks l = [].
Proof.
  induction l as [ | e l IH ]; [ reflexivity | ].
  destruct e; cbn; try exact IH. discriminate.
Qed.

Lemma flushStdInBuffer_buffer (M : Type) (s : AsyncFdOutputSink M) (o : Outside M) :
  buffer_ (fst (flushStdInBuffer s o))
  = skipn (N.to_nat (fst (onWrite_ (base s) (buffer_ s) (medium o)))) (buffer_ s).
Proof.
  unfold flushStdInBuffer, call_onWrite.
  destruct (onWrite_ (base s) (buffer_ s) (medium o)) as [n m'].
  cbn [fst buffer_ set_buffer].
  destruct (skipn (N.to_nat n) (buffer_ s)) as [ | x rest ] eqn:E; [ | reflexivity ].
  cbn [base set_buffer]. unfold AsyncFdOutputSink_doClose.
  destruct (state (base s)) eqn:Es; cbn; rewrite ?Es; reflexivity.
Qed.

Lemma flushStdInBuffer_trace (M : Type) (s : AsyncFdOutputSink M) (o : Outside M) :
  exists tail : list Event,
    trace (snd (flushStdInBuffer s o))
    = trace o
      ++ EvOnWrite (buffer_ s) (fst (onWrite_ (base s) (buffer_ s) (medium o))) :: tail
    /\ filter is_OnWrite tail = [].
Proof.
  unfold flushStdInBuffer, call_onWrite.
  destruct (onWrite_ (base s) (buffer_ s) (medium o)) as [n m'].
  cbn [fst buffer_ set_buffer].
  destruct (skipn (N.to_nat n) (buffer_ s)) as [ | x rest ].
  - cbn [base set_buffer]. unfold AsyncFdOutputSink_doClose.
    destruct (state (base s)) eqn:E; cbn; rewrite ?E; cbn.
    + exists []. split; reflexivity.
    + unfold call_onClose. destruct (onClose_ (base s)); cbn;
        rewrite <- ?app_assoc; cbn; eexists; split; reflexivity.
    + exists []. split; reflexivity.
  - cbn. rewrite <- app_assoc. cbn. eexists. split; reflexivity.
Qed.

Lemma flushStdInBuffer_chunks (M : Type) (s : AsyncFdOutputSink M) (o : Outside M) :
  accepted_chunks (trace (snd (flushStdInBuffer s o)))
  = accepted_chunks (trace o)
    ++ [firstn (N.to_nat (fst (onWrite_ (base s) (buffer_ s) (medium o)))) (buffer_ s)].
Proof.
  destruct (flushStdInBuffer_trace s o) as [tail [Ht Hn]].
  rewrite Ht, accepted_chunks_app. cbn. now rewrite (accepted_chunks_none _ Hn).
Qed.

Lemma flushStdInBuffer_onWrite (M : Type) (s : AsyncFdOutputSink M) (o : Outside M) :
  onWrite_ (base (fst (flushStdInBuffer s o))) = onWrite_ (base s).
Proof.
  unfold flushStdInBuffer, call_onWrite.
  destruct (onWrite_ (base s) (buffer_ s) (medium o)) as [n m'].
  cbn [buffer_ set_buffer].
  destruct (skipn (N.to_nat n) (buffer_ s)); [ | reflexivity ].
  cbn [base set_buffer]. unfold AsyncFdOutputSink_doClose.
  destruct (state (base s)) eqn:Es; cbn; rewrite ?Es; reflexivity.
Qed.

(** On a descriptor that takes up to [k > 0] bytes per call, as many flushes
    as the buffer has bytes (one at least) empty the buffer, and the
    accepted chunks, laid end to end, are the buffer: nothing is lost,
    repeated or reordered. *)
Lemma flush_while_armed_drains (k fuel : nat) :
  0 < k ->
  forall (s : AsyncFdOutputSink bytes) (o : Outside bytes),
    onWrite_ (base s) = fd_accepting k ->
    length (buffer_ s) <= fuel ->
    0 < fuel ->
    buffer_ (fst (flush_while_armed fuel s o)) = []
    /\ concat (accepted_chunks (trace (snd (flush_while_armed fuel s o))))
       = concat (accepted_chunks (trace o)) ++ buffer_ s.
Proof.
  intro Hk. induction fuel as [ | fuel IH ]; intros s o Hw Hlen Hfuel; [ lia | ].
  cbn [flush_while_armed].
  pose proof (flushStdInBuffer_buffer s o) as Hb.
  pose proof (flushStdInBuffer_chunks s o) as Hc.
  pose proof (flushStdInBuffer_onWrite s o) as Hw'.
  destruct (flushStdInBuffer s o) as [s1 o1]. cbn [fst snd] in *.
  rewrite Hw in Hb, Hc, Hw'. unfold fd_accepting in Hb, Hc. cbn [fst] in Hb, Hc.
  rewrite Nat2N.id in Hb, Hc.
  set (n := Nat.min k (length (buffer_ s))) in *.
  assert (Hsplit : firstn n (buffer_ s) ++ buffer_ s1 = buffer_ s)
    by (rewrite Hb; apply firstn_skipn).
  destruct (buffer_ s1) as [ | x rest ] eqn:E1.
  - cbn [fst snd]. split; [ exact E1 | ].
    rewrite Hc, concat_app. cbn. rewrite app_nil_r in *. now rewrite Hsplit.
  - assert (Hl1 : length (buffer_ s1) = length (buffer_ s) - n)
      by (rewrite E1, Hb; apply length_skipn).
    assert (Hpos : 0 < length (buffer_ s1)) by (rewrite E1; cbn; lia).
    destruct (IH s1 o1) as [Hempty Hcat]; try assumption; try (subst n; lia).
    split; [ exact Hempty | ].
    rewrite Hcat, Hc, concat_app. cbn. rewrite app_nil_r, <- app_assoc.
    rewrite E1. now rewrite Hsplit.
Qed.

(** C3. One flush makes one [onWrite] call, offering the whole local buffer,
    and removes from the front of the buffer exactly the bytes that call
    accepted.  With "abcdef" buffered and a descriptor that takes at most two
    bytes per call, flushing for as long as the descriptor is re-armed makes
    exactly three [onWrite] calls, accepting "ab", "cd" and "ef" in this
    order, and leaves the buffer empty; two flushes are not enough, and more
    fuel adds no call.  The same three calls result when "abcdef" is written
    from a producer thread and the reactor then delivers the wake event and
    two writable events. *)
Theorem flush_writes_once_and_abcdef_takes_three :
  (forall (M : Type) (s : AsyncFdOutputSink M) (o : Outside M),
      buffer_ (fst (flushStdInBuffer s o))
      = skipn (N.to_nat (fst (onWrite_ (base s) (buffer_ s) (medium o)))) (buffer_ s)
      /\ firstn (N.to_nat (fst (onWrite_ (base s) (buffer_ s) (medium o)))) (buffer_ s)
         ++ buffer_ (fst (flushStdInBuffer s o))
         = buffer_ s
      /\ count_if is_OnWrite (trace (snd (flushStdInBuffer s o)))
         = S (count_if is_OnWrite (trace o))
      /\ accepted_chunks (trace (snd (flushStdInBuffer s o)))
         = accepted_chunks (trace o)
           ++ [firstn (N.to_nat (fst (onWrite_ (base s) (buffer_ s) (medium o))))
                 (buffer_ s)])
  /\ buffer_ (fst (flush_while_armed 3 (fst fd_world_abcdef) (snd fd_world_abcdef))) = []
  /\ filter is_OnWrite
       (trace (snd (flush_while_armed 3 (fst fd_world_abcdef) (snd fd_world_abcdef))))
     = [EvOnWrite abcdef 2; EvOnWrite cdef 2; EvOnWrite ef 2]
  /\ accepted_chunks
       (trace (snd (flush_while_armed 3 (fst fd_world_abcdef) (snd fd_world_abcdef))))
     = [ab; cd; ef]
  /\ medium (snd (flush_while_armed 3 (fst fd_world_abcdef) (snd fd_world_abcdef)))
     = abcdef
  /\ buffer_ (fst (flush_while_armed 2 (fst fd_world_abcdef) (snd fd_world_abcdef))) = ef
  /\ (forall extra : nat,
        flush_while_armed (3 + extra) (fst fd_world_abcdef) (snd fd_world_abcdef)
        = flush_while_armed 3 (fst fd_world_abcdef) (snd fd_world_abcdef))
  /\ buffer_ (fst (run abcdef_from_producer fd_world)) = []
  /\ filter is_OnWrite (trace (snd (run abcdef_from_producer fd_world)))
     = [EvOnWrite abcdef 2; EvOnWrite cdef 2; EvOnWrite ef 2]
  /\ accepted_chunks (trace (snd (run abcdef_from_producer fd_world))) = [ab; cd; ef]
  /\ medium (snd (run abcdef_from_producer fd_world)) = abcdef.
Proof.
  split.
  { intros M s o.
    pose proof (flushStdInBuffer_buffer s o) as Hb.
    destruct (flushStdInBuffer_trace s o) as [tail [Ht Hn]].
    rewrite Hb. repeat split.
    - apply firstn_skipn.
    - rewrite Ht, count_if_app. unfold count_if at 2. cbn. rewrite Hn. cbn. lia.
    - apply flushStdInBuffer_chunks. }
  repeat split; intros; vm_compute; reflexivity.
Qed.

(** *** Writing from producer threads *)





(** ** The claims at concrete inputs *)

(** C1, as stated, fails on the base sink: a [CLOSED] base sink, the one
    [requestClose] leaves behind, still calls [onWrite] and returns [true]. *)
Lemma closed_base_sink_still_writes :
  fst closed_base_world = closed_base_sink
  /\ state closed_base_sink = CLOSED
  /\ wr_ok (OutputSink_write IoThread abcdef closed_base_sink (snd closed_base_world))
     = true
  /\ trace (wr_out (OutputSink_write IoThread abcdef closed_base_sink
                      (snd closed_base_world)))
     = [EvOnClose; EvOnWrite abcdef 2]
  /\ medium (wr_out (OutputSink_write IoThread abcdef closed_base_sink
                       (snd closed_base_world)))
     = ab
  /\ ~ (forall (s : OutputSink bytes) (o : Outside bytes) (c : Caller) (data : bytes),
          state s <> OPEN -> OutputSink_write c data s o = (false, data, s, o)).
Proof.
  repeat split.
  intro H.
  specialize (H closed_base_sink nothing_yet IoThread abcdef).
  assert (Hne : state closed_base_sink <> OPEN) by (cbv; discriminate).
  apply H in Hne. apply (f_equal (@wr_ok bytes (OutputSink bytes))) in Hne.
  vm_compute in Hne. discriminate.
Qed.

(** The amended C1 at a closed descriptor-backed sink and a closed base
    sink. *)
Lemma write_on_sink_past_OPEN_witness :
  AsyncFdOutputSink_write IoThread abcdef (fst fd_world_closed) (snd fd_world_closed)
  = (false, abcdef, fst fd_world_closed, snd fd_world_closed)
  /\ OutputSink_write IoThread abcdef closed_base_sink (snd fd_world_closed) =
       ((0 <? fst (onWrite_ closed_base_sink abcdef (medium (snd fd_world_closed))))%N,
        abcdef, closed_base_sink,
        mkOutside (snd (onWrite_ closed_base_sink abcdef (medium (snd fd_world_closed))))
          (trace (snd fd_world_closed)
           ++ [EvOnWrite abcdef
                 (fst (onWrite_ closed_base_sink abcdef
                         (medium (snd fd_world_closed))))])).
Proof.
  apply (@write_on_sink_past_OPEN bytes IoThread abcdef
           (fst fd_world_closed) closed_base_sink (snd fd_world_closed));
    cbv; discriminate.
Defined.



(** C4 at a sink with "cdef" still buffered: the hangup closes it, and
    whatever the reactor reports afterwards, only "ab" has reached the
    peer. *)
Lemma hangup_finalizes_at_once_witness :
  buffer_ (fst fd_world_stalled) = cdef
  /\ medium (snd fd_world_stalled) = ab
  /\ state (base (fst (processOne (OutputReady Hangup)
                        (fst fd_world_stalled) (snd fd_world_stalled))))
     = CLOSED
  /\ buffer_ (fst (processOne (OutputReady Hangup)
                     (fst fd_world_stalled) (snd fd_world_stalled)))
     = []
  /\ trace (snd (processOne (OutputReady Hangup)
                   (fst fd_world_stalled) (snd fd_world_stalled)))
     = trace (snd fd_world_stalled)
       ++ [EvOnHangup; EvDeregisterOutput; EvDeregisterWake; EvCloseOutputFd; EvOnClose]
  /\ medium (snd (run late_events
                    (processOne (OutputReady Hangup)
                       (fst fd_world_stalled) (snd fd_world_stalled))))
     = ab
  /\ wr_ok (AsyncFdOutputSink_write ProducerThread abcdef
              (fst (processOne (OutputReady Hangup)
                      (fst fd_world_stalled) (snd fd_world_stalled)))
              (snd (processOne (OutputReady Hangup)
                      (fst fd_world_stalled) (snd fd_world_stalled))))
     = false.
Proof.
  assert (Hh : is_hangup Hangup = true) by reflexivity.
  assert (Hs : state (base (fst fd_world_stalled)) <> CLOSED) by (cbv; discriminate).
  pose proof (@hangup_finalizes_at_once bytes Hangup
                (fst fd_world_stalled) (snd fd_world_stalled) Hh Hs)
    as [_ [Hst [Hb [_ [Htr [Hm [_ [Hlater Hw]]]]]]]].
  split; [ reflexivity | ].
  split; [ reflexivity | ].
  split; [ exact Hst | ].
  split; [ exact Hb | ].
  split; [ exact Htr | ].
  split.
  - destruct (Hlater late_events) as [_ [_ [_ [_ Hmed]]]].
    rewrite Hmed, Hm. reflexivity.
  - specialize (Hw [] ProducerThread abcdef). cbn [run fold_left] in Hw.
    unfold wr_ok. rewrite Hw. reflexivity.
Defined.

(** * Further properties of the base sink's [write] *)

Section BaseWrites.

Variable M : Type.

Lemma OutputSink_call_unfold (c : Caller) (w : WriteCall) (s : OutputSink M) (o : Outside M) :
  OutputSink_call c w s o =
    ((0 <? fst (onWrite_ s (call_data w) (medium o)))%N, call_data w, s,
     mkOutside (snd (onWrite_ s (call_data w) (medium o)))
       (trace o ++ [EvOnWrite (call_data w) (fst (onWrite_ s (call_data w) (medium o)))])).
Proof.
  destruct w as [data | data]; cbn [OutputSink_call call_data].
  - apply OutputSink_write_unfold.
  - unfold write_copy. cbn [v_write OutputSink_virtuals].
    rewrite OutputSink_write_unfold. reflexivity.
Qed.

Lemma OutputSink_calls_unfold (c : Caller) (ws : list WriteCall) :
  forall (s : OutputSink M) (o : Outside M),
    OutputSink_calls c ws s o =
      (map (N.ltb 0) (onWrite_counts (onWrite_ s) (map call_data ws) (medium o)),
       s,
       mkOutside (onWrite_medium (onWrite_ s) (map call_data ws) (medium o))
         (trace o ++ write_events (map call_data ws)
                       (onWrite_counts (onWrite_ s) (map call_data ws) (medium o)))).
Proof.
  induction ws as [ | w ws IH ]; intros s o.
  - cbn. rewrite app_nil_r. now destruct o.
  - cbn [OutputSink_calls]. rewrite OutputSink_call_unfold, IH.
    cbn [map onWrite_counts onWrite_medium medium trace].
    unfold write_events. cbn [combine map fst snd].
    rewrite <- app_assoc. reflexivity.
Qed.

Lemma onWrite_counts_length (f : OnWrite M) (ds : list bytes) :
  forall m : M, length (onWrite_counts f ds m) = length ds.
Proof.
  induction ds as [ | d ds IH ]; intro m; cbn; [ reflexivity | now rewrite IH ].
Qed.

Lemma write_events_count (ds : list bytes) :
  forall ns : list N,
    length ns = length ds ->
    count_if is_OnWrite (write_events ds ns) = length ds
    /\ count_if is_OnClose (write_events ds ns) = 0
    /\ length (write_events ds ns) = length ds.
Proof.
  unfold count_if, write_events.
  induction ds as [ | d ds IH ]; intros [ | n ns ] H; cbn in *; try lia; auto.
  destruct (IH ns) as [H1 [H2 H3]]; [ lia | ]. repeat split; lia.
Qed.

(** X1. Any series of writes to a base sink, through either overload, is the
    callback applied to the strings one by one: each call of [write] makes
    exactly one [onWrite] call, offering the whole string, in the order of
    the calls; the [bool] returned is whether that one call reported a
    positive count; nothing else happens (no [onClose], no second attempt),
    and the sink itself, state and callbacks, is as it was. *)
Theorem OutputSink_calls_one_onWrite_per_string
  (c : Caller) (ws : list WriteCall) (s : OutputSink M) (o : Outside M) :
  OutputSink_calls c ws s o =
    (map (N.ltb 0) (onWrite_counts (onWrite_ s) (map call_data ws) (medium o)),
     s,
     mkOutside (onWrite_medium (onWrite_ s) (map call_data ws) (medium o))
       (trace o ++ write_events (map call_data ws)
                     (onWrite_counts (onWrite_ s) (map call_data ws) (medium o))))
  /\ length (fst (fst (OutputSink_calls c ws s o))) = length ws
  /\ length (trace (snd (OutputSink_calls c ws s o))) = length (trace o) + length ws
  /\ count_if is_OnWrite (trace (snd (OutputSink_calls c ws s o)))
     = count_if is_OnWrite (trace o) + length ws
  /\ count_if is_OnClose (trace (snd (OutputSink_calls c ws s o)))
     = count_if is_OnClose (trace o).
Proof.
  rewrite OutputSink_calls_unfold. cbn [fst snd trace].
  pose proof (onWrite_counts_length (onWrite_ s) (map call_data ws) (medium o)) as Hl.
  destruct (write_events_count (map call_data ws) _ Hl) as [H1 [H2 H3]].
  rewrite length_map in *.
  repeat split.
  - exact Hl.
  - rewrite length_app. lia.
  - rewrite count_if_app. lia.
  - rewrite count_if_app. lia.
Qed.

(** X2. Writing the empty string still calls [onWrite] (with no bytes), and
    when the callback never reports more bytes than it is offered the call
    returns [false], through either overload: an empty write reads as a
    failed one. *)
Theorem OutputSink_write_empty_string
  (c : Caller) (s : OutputSink M) (o : Outside M) :
  honest (onWrite_ s) ->
  wr_ok (OutputSink_write c [] s o) = false
  /\ wr_ok (write_copy c [] s o) = false
  /\ trace (wr_out (OutputSink_write c [] s o)) = trace o ++ [EvOnWrite [] 0]
  /\ trace (wr_out (write_copy c [] s o)) = trace o ++ [EvOnWrite [] 0].
Proof.
  intro H.
  assert (Hn : fst (onWrite_ s [] (medium o)) = 0%N).
  { specialize (H [] (medium o)). cbn in H. lia. }
  pose proof (OutputSink_call_unfold c (ByRvalue []) s o) as Hr.
  pose proof (OutputSink_call_unfold c (ByCopy []) s o) as Hc.
  cbn [OutputSink_call call_data] in Hr, Hc.
  rewrite Hr, Hc, Hn. unfold wr_ok, wr_out. cbn. repeat split.
Qed.

(** X4. What a series of base writes returns and does depends on [onWrite_]
    alone: two sinks with the same [onWrite_], whatever their [state] and
    [onClose_], return the same [bool]s and leave the same medium and
    trace. *)
Theorem OutputSink_calls_ignore_state_and_onClose
  (c : Caller) (ws : list WriteCall) (s1 s2 : OutputSink M) (o : Outside M) :
  onWrite_ s1 = onWrite_ s2 ->
  fst (fst (OutputSink_calls c ws s1 o)) = fst (fst (OutputSink_calls c ws s2 o))
  /\ snd (OutputSink_calls c ws s1 o) = snd (OutputSink_calls c ws s2 o)
  /\ state (snd (fst (OutputSink_calls c ws s1 o))) = state s1
  /\ state (snd (fst (OutputSink_calls c ws s2 o))) = state s2.
Proof.
  intro H. rewrite !OutputSink_calls_unfold, H. repeat split.
Qed.

End BaseWrites.

Lemma fd_accepting_counts (k : nat) (ds : list bytes) :
  forall m : bytes,
    onWrite_counts (fd_accepting k) ds m
    = map (fun d => N.of_nat (Nat.min k (length d))) ds.
Proof.
  induction ds as [ | d ds IH ]; intro m; cbn; [ reflexivity | now rewrite IH ].
Qed.

Lemma firstn_min_length (A : Type) (k : nat) (l : list A) :
  firstn (Nat.min k (length l)) l = firstn k l.
Proof.
  destruct (Nat.le_ge_cases k (length l)) as [H | H].
  - now rewrite Nat.min_l.
  - rewrite Nat.min_r by assumption.
    now rewrite firstn_all, firstn_all2.
Qed.

Lemma fd_accepting_medium (k : nat) (ds : list bytes) :
  forall m : bytes,
    onWrite_medium (fd_accepting k) ds m = m ++ concat (map (firstn k) ds).
Proof.
  induction ds as [ | d ds IH ]; intro m; cbn.
  - now rewrite app_nil_r.
  - rewrite IH, firstn_min_length, <- app_assoc. reflexivity.
Qed.

(** X3. On a descriptor that takes at most [k] bytes per call, the base sink
    passes on only the first [k] bytes of each string: it neither retries
    nor keeps the rest.  Each call still returns [true] as soon as one byte
    was taken, so a cut string reads as a successful write. *)
Theorem OutputSink_calls_cut_each_string
  (k : nat) (c : Caller) (ws : list WriteCall)
  (st : State) (onClose : option (OnClose bytes)) (o : Outside bytes) :
  medium (snd (OutputSink_calls c ws (mkOutputSink st (fd_accepting k) onClose) o))
  = medium o ++ concat (map (fun w => firstn k (call_data w)) ws)
  /\ fst (fst (OutputSink_calls c ws (mkOutputSink st (fd_accepting k) onClose) o))
     = map (fun w => Nat.ltb 0 (Nat.min k (length (call_data w)))) ws
  /\ accepted_chunks
       (trace (snd (OutputSink_calls c ws (mkOutputSink st (fd_accepting k) onClose) o)))
     = accepted_chunks (trace o) ++ map (fun w => firstn k (call_data w)) ws.
Proof.
  rewrite OutputSink_calls_unfold. cbn [fst snd medium trace onWrite_].
  rewrite fd_accepting_medium, fd_accepting_counts, !map_map.
  repeat split.
  - apply map_ext. intro w.
    destruct (Nat.min k (length (call_data w))); reflexivity.
  - rewrite accepted_chunks_app. f_equal.
    induction ws as [ | w ws IH ]; [ reflexivity | ].
    cbn. rewrite Nat2N.id, firstn_min_length. f_equal. exact IH.
Qed.

(** X2 on the two-byte descriptor. *)
Lemma OutputSink_write_empty_string_witness :
  wr_ok (OutputSink_write IoThread [] base_sink nothing_yet) = false
  /\ wr_ok (write_copy IoThread [] base_sink nothing_yet) = false
  /\ trace (wr_out (OutputSink_write IoThread [] base_sink nothing_yet))
     = trace nothing_yet ++ [EvOnWrite [] 0]
  /\ trace (wr_out (write_copy IoThread [] base_sink nothing_yet))
     = trace nothing_yet ++ [EvOnWrite [] 0].
Proof.
  apply (@OutputSink_write_empty_string bytes IoThread base_sink nothing_yet).
  intros data m. unfold base_sink, OutputSink_new, fd_accepting.
  cbn [onWrite_ fst]. lia.
Defined.

(** X4 on an open and a closed sink over the same descriptor. *)
Lemma OutputSink_calls_ignore_state_and_onClose_witness :
  fst (fst (OutputSink_calls IoThread [ByRvalue abcdef; ByCopy cd] base_sink nothing_yet))
  = fst (fst (OutputSink_calls IoThread [ByRvalue abcdef; ByCopy cd]
                closed_base_sink nothing_yet))
  /\ snd (OutputSink_calls IoThread [ByRvalue abcdef; ByCopy cd] base_sink nothing_yet)
     = snd (OutputSink_calls IoThread [ByRvalue abcdef; ByCopy cd]
              closed_base_sink nothing_yet)
  /\ state (snd (fst (OutputSink_calls IoThread [ByRvalue abcdef; ByCopy cd]
                        base_sink nothing_yet)))
     = state base_sink
  /\ state (snd (fst (OutputSink_calls IoThread [ByRvalue abcdef; ByCopy cd]
                        closed_base_sink nothing_yet)))
     = state closed_base_sink.
Proof.
  apply (@OutputSink_calls_ignore_state_and_onClose bytes IoThread
           [ByRvalue abcdef; ByCopy cd] base_sink closed_base_sink nothing_yet).
  reflexivity.
Defined.
